(** * Blob-creation relay: a shallow embedding of [function_app.py]

    The module under study registers one handler, [file_drop_trigger].  On
    an Event Grid notification it derives a blob name from the subject,
    serialises a summary record, tries to take an exclusive lease on the
    blob and, if that works, hands the serialised record to the queue output
    binding.  The lease is given back in a [finally] block.

    The embedding has three layers:
    - Python values that flow through the handler ([json], [str.split],
      [json.dumps]);
    - a small exception-and-state monad that carries the handler's one
      mutable local ([lease]) and a trace of the calls made to the outside
      world, with [try]/[except]/[finally] combinators;
    - the handler itself, statement by statement, parameterised by a
      [world] that fixes how each external call answers.

    The decorators of lines 22 to 27 act when the module is loaded; the
    embedding starts at the first statement of the handler's body. *)

From Stdlib Require Import String Ascii List ZArith Bool Lia DecimalString.
Import ListNotations.
Open Scope string_scope.
Set Warnings "-register-all".

(** ** Python values *)

(** Values of a parsed JSON document, as [json.loads] builds them and as
    [event.get_json()] hands them to the handler.  A [str] is a sequence of
    characters with code points below 256.  A floating-point number is
    carried by the text Python's [float.__repr__] gives it, which is what
    [json.dumps] writes for a finite one.  A [dict] keeps insertion
    order. *)
Inductive json : Type :=
| JNull
| JBool (b : bool)
| JInt (z : Z)
| JFloat (repr : string)
| JStr (s : string)
| JArr (items : list json)
| JObj (fields : list (string * json)).

(** Outcome of evaluating a Python expression or statement: a value, or a
    raised exception. *)
Inductive exn_class : Type :=
| ResourceExistsError      (* azure.core.exceptions, under HttpResponseError *)
| ResourceNotFoundError    (* azure.core.exceptions, under HttpResponseError *)
| HttpResponseError
| NameError
| AttributeError
| IndexError
| TypeError
| OtherException           (* any other class derived from Exception *)
| NonException.            (* BaseException outside Exception: KeyboardInterrupt, SystemExit *)

Record exn : Type := mkExn { exn_cls : exn_class; exn_msg : string }.

Inductive outcome (A : Type) : Type :=
| Ok (a : A)
| Raise (e : exn).
Arguments Ok {A} a.
Arguments Raise {A} e.

(** [isinstance(e, Exception)] *)
Definition is_Exception (e : exn) : bool :=
  match exn_cls e with
  | NonException => false
  | _ => true
  end.

(** [isinstance(e, ResourceExistsError)], [isinstance(e, ResourceNotFoundError)] *)
Definition is_ResourceExistsError (e : exn) : bool :=
  match exn_cls e with ResourceExistsError => true | _ => false end.

Definition is_ResourceNotFoundError (e : exn) : bool :=
  match exn_cls e with ResourceNotFoundError => true | _ => false end.

(** *** [str.split] with a one-character separator, and [xs[-1]] *)

(** [split_aux sep s cur] scans [s]; [cur] is the segment read so far, in
    reverse.  Every separator closes a segment, the end of the string closes
    the last one, so the result has one more element than [s] has
    separators. *)
Fixpoint rev_string (acc s : string) : string :=
  match s with
  | EmptyString => acc
  | String c r => rev_string (String c acc) r
  end.

Fixpoint split_aux (sep : ascii) (s : string) (cur : string) : list string :=
  match s with
  | EmptyString => [rev_string "" cur]
  | String c r =>
      if Ascii.eqb c sep
      then rev_string "" cur :: split_aux sep r ""
      else split_aux sep r (String c cur)
  end.

Definition split (sep : ascii) (s : string) : list string := split_aux sep s "".

(** [xs[-1]]: the last element, [IndexError] on the empty list. *)
Fixpoint index_last {A : Type} (xs : list A) : outcome A :=
  match xs with
  | [] => Raise (mkExn IndexError "list index out of range")
  | [x] => Ok x
  | _ :: r => index_last r
  end.

(** *** [dict.get] *)

Fixpoint assoc_get (k : string) (kvs : list (string * json)) : json :=
  match kvs with
  | [] => JNull
  | (k', v) :: r => if String.eqb k k' then v else assoc_get k r
  end.

(** [type(v).__name__] *)
Definition type_name (v : json) : string :=
  match v with
  | JNull => "NoneType"
  | JBool _ => "bool"
  | JInt _ => "int"
  | JFloat _ => "float"
  | JStr _ => "str"
  | JArr _ => "list"
  | JObj _ => "dict"
  end.

(** The exception of a failed attribute lookup [v.attr]. *)
Definition no_attribute (v : json) (attr : string) : exn :=
  mkExn AttributeError
    ("'" ++ type_name v ++ "' object has no attribute '" ++ attr ++ "'").

(** [v.get(k)]: the bound value or [None] on a [dict]; every other JSON value
    has no attribute [get]. *)
Definition py_get (v : json) (k : string) : outcome json :=
  match v with
  | JObj kvs => Ok (assoc_get k kvs)
  | _ => Raise (no_attribute v "get")
  end.

(** *** [json.dumps] with its default options *)

(** The double-quote character. *)
Definition dquote : ascii := ascii_of_N 34.

Definition hex_digit (n : N) : ascii :=
  if (n <? 10)%N then ascii_of_N (48 + n) else ascii_of_N (87 + n).

(** ['\\u{0:04x}'.format(n)] for [n < 256]. *)
Definition u_escape (n : N) : string :=
  "\u00" ++ String (hex_digit (n / 16)) (String (hex_digit (n mod 16)) "").

(** One character under [ensure_ascii=True]: the short escapes of
    [ESCAPE_DCT], the printable ASCII range unchanged, [\uXXXX] otherwise. *)
Definition escape_char (c : ascii) : string :=
  let n := N_of_ascii c in
  if (n =? 34)%N then String "\" (String dquote "")
  else if (n =? 92)%N then "\\"
  else if (n =? 8)%N then "\b"
  else if (n =? 12)%N then "\f"
  else if (n =? 10)%N then "\n"
  else if (n =? 13)%N then "\r"
  else if (n =? 9)%N then "\t"
  else if ((32 <=? n) && (n <=? 126))%N then String c ""
  else u_escape n.

Fixpoint escape_chars (s : string) : string :=
  match s with
  | EmptyString => ""
  | String c r => escape_char c ++ escape_chars r
  end.

(** [py_encode_basestring_ascii] *)
Definition encode_str (s : string) : string :=
  String dquote (escape_chars s) ++ String dquote "".

(** [int.__repr__] *)
Definition int_repr (z : Z) : string := NilZero.string_of_int (Z.to_int z).

(** [floatstr] of the encoder: the three non-finite floats get their
    JavaScript names, every other float its [float.__repr__]. *)
Definition float_str (repr : string) : string :=
  if String.eqb repr "nan" then "NaN"
  else if String.eqb repr "inf" then "Infinity"
  else if String.eqb repr "-inf" then "-Infinity"
  else repr.

Fixpoint json_dumps (v : json) : string :=
  match v with
  | JNull => "null"
  | JBool true => "true"
  | JBool false => "false"
  | JInt z => int_repr z
  | JFloat r => float_str r
  | JStr s => encode_str s
  | JArr items => "[" ++ String.concat ", " (map json_dumps items) ++ "]"
  | JObj fields =>
      "{" ++ String.concat ", "
               (map (fun kv => encode_str (fst kv) ++ ": " ++ json_dumps (snd kv)) fields)
          ++ "}"
  end.

(** ** The handler's effects *)

(** A lease handle ([BlobLeaseClient]) is known by its lease id. *)
Definition lease_handle : Type := string.

Inductive log_level : Type := INFO | ERROR.

(** What the handler does to the outside world, in order.  A call is
    recorded together with the way it answered. *)
Inductive event : Type :=
| EvLog (level : log_level) (fmt : string) (arg : json)
| EvAcquire (o : outcome lease_handle)          (* blob_client.acquire_lease() *)
| EvMsgSet (text : string) (o : outcome unit)   (* msg.set(text) *)
| EvRelease (h : lease_handle) (o : outcome unit). (* lease.release() *)

(** The answers of the external collaborators during one invocation.  The
    handler is straight-line code, so each of them is asked at most once.

    [underscore_bound] says whether the global name [_] resolves: the module
    binds no such name, so it resolves only if the hosting interpreter has
    put one in [builtins]. *)
Record world : Type := mkWorld {
  underscore_bound : bool;
  DefaultAzureCredential : outcome unit;
  from_blob_url : json -> outcome unit;
  acquire_lease : outcome lease_handle;
  msg_set : string -> outcome unit;
  release : lease_handle -> outcome unit
}.

(** The handler's mutable local and the trace of its calls. *)
Record state : Type := mkState {
  lease : option lease_handle;
  trace : list event
}.

Definition M (A : Type) : Type := state -> outcome A * state.

Definition ret {A} (a : A) : M A := fun s => (Ok a, s).

Definition raise {A} (e : exn) : M A := fun s => (Raise e, s).

Definition bind {A B} (m : M A) (k : A -> M B) : M B :=
  fun s =>
    match m s with
    | (Ok a, s') => k a s'
    | (Raise e, s') => (Raise e, s')
    end.

Declare Scope py_scope.
Delimit Scope py_scope with py.
Notation "x <- m ;; k" := (bind m (fun x => k))
  (at level 61, m at next level, right associativity) : py_scope.
Notation "m ;; k" := (bind m (fun _ => k))
  (at level 61, right associativity) : py_scope.
Open Scope py_scope.

(** A pure evaluation that may raise. *)
Definition lift {A} (o : outcome A) : M A := fun s => (o, s).

Definition emit (ev : event) : M unit :=
  fun s => (Ok tt, mkState (lease s) (trace s ++ [ev])).

Definition set_lease (l : option lease_handle) : M unit :=
  fun s => (Ok tt, mkState l (trace s)).

Definition get_lease : M (option lease_handle) :=
  fun s => (Ok (lease s), s).

(** An external call: its answer is recorded, then returned or raised. *)
Definition call {A} (mk : outcome A -> event) (o : outcome A) : M A :=
  emit (mk o) ;; lift o.

(** [logging.info(fmt, arg)] and [logging.error(fmt, arg)] *)
Definition logging (level : log_level) (fmt : string) (arg : json) : M unit :=
  emit (EvLog level fmt arg).

(** [except C as exc: handler]: the clauses are tried in order, the first
    whose class test accepts the exception runs; an exception no clause
    accepts keeps propagating. *)
Fixpoint dispatch (clauses : list ((exn -> bool) * (exn -> M unit))) (e : exn) : M unit :=
  match clauses with
  | [] => raise e
  | (accepts, handler) :: rest =>
      if accepts e then handler e else dispatch rest e
  end.

Definition try_except (body : M unit)
    (clauses : list ((exn -> bool) * (exn -> M unit))) : M unit :=
  fun s =>
    match body s with
    | (Ok a, s') => (Ok a, s')
    | (Raise e, s') => dispatch clauses e s'
    end.

(** [try: body finally: cleanup]: the cleanup always runs; if it raises,
    its exception is the one that leaves the statement. *)
Definition try_finally (body : M unit) (cleanup : M unit) : M unit :=
  fun s =>
    match body s with
    | (o, s') =>
        match cleanup s' with
        | (Ok _, s'') => (o, s'')
        | (Raise e, s'') => (Raise e, s'')
        end
    end.

(** Truth value of the local [lease]: [None] is false, a lease client
    object (its class defines neither [__bool__] nor [__len__]) is true. *)
Definition truthy (l : option lease_handle) : bool :=
  match l with Some _ => true | None => false end.

Definition is_not_None (l : option lease_handle) : bool :=
  match l with Some _ => true | None => false end.

(** ** The notification and the handler *)

(** [func.EventGridEvent]: four string attributes and the payload that
    [get_json()] returns, any JSON value. *)
Record EventGridEvent : Type := mkEvent {
  event_id : string;
  subject : string;
  topic : string;
  event_type : string;
  data : json
}.

Definition get_json (event : EventGridEvent) : json := data event.

(** What lines 46 to 62 leave in the locals. *)
Record parsed : Type := mkParsed {
  blob_name : string;
  blob_url : json;
  result : string
}.

(** The dict literal of lines 50 to 61, once its entries are evaluated. *)
Definition relay_record (event : EventGridEvent) (blob_name : string)
    (blob_url blob_type content_type content_length : json) : json :=
  JObj [ ("id", JStr (event_id event));
         ("source", JStr "file");
         ("blob_name", JStr blob_name);
         ("blob_url", blob_url);
         ("blob_type", blob_type);
         ("content_type", content_type);
         ("content_length", content_length);
         ("topic", JStr (topic event));
         ("subkect", JStr (subject event));
         ("event_type", JStr (event_type event)) ].

(** Lines 46 to 62: parse the notification and serialise the record. *)
Definition build_result (event : EventGridEvent) : M parsed :=
  let event_data := get_json event in
  blob_name <- lift (index_last (split "/" (subject event))) ;;
  blob_url <- lift (py_get event_data "url") ;;
  blob_type <- lift (py_get event_data "blobType") ;;
  content_type <- lift (py_get event_data "contentType") ;;
  content_length <- lift (py_get event_data "contentLength") ;;
  ret (mkParsed blob_name blob_url
         (json_dumps (relay_record event blob_name blob_url
                        blob_type content_type content_length))).

(** Evaluation of the name [_] (line 67). *)
Definition load_underscore (w : world) : M unit :=
  if underscore_bound w then ret tt
  else raise (mkExn NameError "name '_' is not defined").

(** Lines 65 to 70, the body of the [try]. *)
Definition try_body (w : world) (p : parsed) : M unit :=
  load_underscore w ;;
  lift (DefaultAzureCredential w) ;;
  lift (from_blob_url w (blob_url p)) ;;
  l <- call EvAcquire (acquire_lease w) ;;
  set_lease (Some l) ;;
  let text := json_dumps (JStr (result p)) in
  call (EvMsgSet text) (msg_set w text).

(** Lines 71 to 79, the [except] clauses. *)
Definition except_clauses (p : parsed) : list ((exn -> bool) * (exn -> M unit)) :=
  [ (is_ResourceExistsError,
      fun _ => logging INFO
        "Another process is currently leasing the blob %s. Exiting function....."
        (JStr (blob_name p)));
    (is_ResourceNotFoundError,
      fun _ => logging ERROR "Blob not found: %s. Processing halted" (blob_url p));
    (is_Exception,
      fun exc => logging ERROR "Unexpected error occurred: %s" (JStr (exn_msg exc))) ].

(** Lines 80 to 82, the [finally] block. *)
Definition finally_block (w : world) : M unit :=
  l <- get_lease ;;
  if truthy l && is_not_None l
  then match l with
       | Some h => call (EvRelease h) (release w h)
       | None => ret tt
       end
  else ret tt.

Definition file_drop_trigger (w : world) (event : EventGridEvent) : M unit :=
  set_lease None ;;
  p <- build_result event ;;
  try_finally (try_except (try_body w p) (except_clauses p)) (finally_block w).

(** One invocation, from the empty trace. *)
Definition initial : state := mkState None [].

Definition invoke (w : world) (event : EventGridEvent) : outcome unit * state :=
  file_drop_trigger w event initial.

(** *** Reading a trace *)

(** The texts the queue output binding holds: every [msg.set] that came back. *)
Fixpoint messages (tr : list event) : list string :=
  match tr with
  | [] => []
  | EvMsgSet text (Ok _) :: r => text :: messages r
  | _ :: r => messages r
  end.

Definition acquired (tr : list event) (h : lease_handle) : Prop :=
  In (EvAcquire (Ok h)) tr.

Definition lease_acquired (tr : list event) : Prop := exists h, acquired tr h.

Definition release_called (tr : list event) (h : lease_handle) : Prop :=
  exists o, In (EvRelease h o) tr.

(** The handles still held at the end of a trace: acquired, and not given
    back by a later [release()] that came back. *)
Fixpoint held (tr : list event) (acc : list lease_handle) : list lease_handle :=
  match tr with
  | [] => acc
  | EvAcquire (Ok h) :: r => held r (h :: acc)
  | EvRelease h (Ok _) :: r =>
      held r (filter (fun h' => negb (String.eqb h h')) acc)
  | _ :: r => held r acc
  end.

Definition leases_held (tr : list event) : list lease_handle := held tr [].

(** ** Vocabulary of the statements *)

(** No separator occurs in [s]. *)
Fixpoint sep_free (sep : ascii) (s : string) : bool :=
  match s with
  | EmptyString => true
  | String c r => negb (Ascii.eqb c sep) && sep_free sep r
  end.

(** The last ["/"]-separated segment of a subject, as a total function. *)
Definition last_segment (s : string) : string := last (split "/" s) "".

(** A payload field read with [.get], for a payload that is an object. *)
Definition payload_get (fields : list (string * json)) (k : string) : json :=
  assoc_get k fields.

(** The locals after lines 46 to 62 on an object payload. *)
Definition parsed_of (event : EventGridEvent) (fields : list (string * json)) : parsed :=
  let name := last_segment (subject event) in
  let url := payload_get fields "url" in
  mkParsed name url
    (json_dumps (relay_record event name url
                   (payload_get fields "blobType")
                   (payload_get fields "contentType")
                   (payload_get fields "contentLength"))).

(** The text handed to [msg.set] on line 70. *)
Definition message_text (p : parsed) : string := json_dumps (JStr (result p)).

(** The three evaluations of lines 65 to 68 that come before the call to
    [acquire_lease]: the name [_], the credential, the blob client. *)
Definition client_construction (w : world) (p : parsed) : outcome unit :=
  if underscore_bound w
  then match DefaultAzureCredential w with
       | Ok _ => from_blob_url w (blob_url p)
       | Raise e => Raise e
       end
  else Raise (mkExn NameError "name '_' is not defined").

(** The log record the [except] clauses write for a caught exception. *)
Definition caught_log (p : parsed) (e : exn) : event :=
  if is_ResourceExistsError e
  then EvLog INFO
         "Another process is currently leasing the blob %s. Exiting function....."
         (JStr (blob_name p))
  else if is_ResourceNotFoundError e
  then EvLog ERROR "Blob not found: %s. Processing halted" (blob_url p)
  else EvLog ERROR "Unexpected error occurred: %s" (JStr (exn_msg e)).

(** What a [try] body that raised [e] leaves behind once the [except]
    clauses have run: a log record and a normal exit for an [Exception],
    the exception itself otherwise. *)
Definition after_except (p : parsed) (e : exn) : outcome unit * list event :=
  if is_Exception e then (Ok tt, [caught_log p e]) else (Raise e, []).

(** What leaves the [try] statement after a body that ended with [o]. *)
Definition after_body (p : parsed) (o : outcome unit) : outcome unit * list event :=
  match o with
  | Ok _ => (Ok tt, [])
  | Raise e => after_except p e
  end.

(** What leaves the [finally] block: its own exception if it raised. *)
Definition after_finally (body cleanup : outcome unit) : outcome unit :=
  match cleanup with
  | Ok _ => body
  | Raise e => Raise e
  end.

(** The queue binding accepts whatever text it is given. *)
Definition emission_succeeds (w : world) : Prop :=
  forall text, msg_set w text = Ok tt.

(** Every exception the collaborators raise inside the [try] body derives
    from [Exception]. *)
Definition raises_Exception_only {A} (o : outcome A) : Prop :=
  match o with
  | Ok _ => True
  | Raise e => is_Exception e = true
  end.

Definition ordinary_failures (w : world) : Prop :=
  raises_Exception_only (DefaultAzureCredential w)
  /\ (forall url, raises_Exception_only (from_blob_url w url))
  /\ raises_Exception_only (acquire_lease w)
  /\ (forall text, raises_Exception_only (msg_set w text)).

Definition acquisition_raised (tr : list event) (e : exn) : Prop :=
  In (EvAcquire (Raise e)) tr.

(** The Relay Message as the specification words it: the ten fields, with
    the key [subject]. *)
Definition spec_relay_message (event : EventGridEvent) (blob_name : string)
    (blob_url blob_type content_type content_length : json) : json :=
  JObj [ ("id", JStr (event_id event));
         ("source", JStr "file");
         ("blob_name", JStr blob_name);
         ("blob_url", blob_url);
         ("blob_type", blob_type);
         ("content_type", content_type);
         ("content_length", content_length);
         ("topic", JStr (topic event));
         ("subject", JStr (subject event));
         ("event_type", JStr (event_type event)) ].

(** Sample inputs. *)
Definition sample_event : EventGridEvent :=
  mkEvent "evt-0001"
    "/blobServices/default/containers/uploads/blobs/report-2024.csv"
    "/subscriptions/s1/resourceGroups/rg/providers/Microsoft.Storage/storageAccounts/acct"
    "Microsoft.Storage.BlobCreated"
    (JObj [ ("url", JStr "https://acct.blob.core.windows.net/uploads/report-2024.csv");
            ("blobType", JStr "BlockBlob");
            ("contentType", JStr "text/csv") ]).

Definition sample_fields : list (string * json) :=
  [ ("url", JStr "https://acct.blob.core.windows.net/uploads/report-2024.csv");
    ("blobType", JStr "BlockBlob");
    ("contentType", JStr "text/csv") ].

(** A world in which every collaborator answers. *)
Definition world_ok : world :=
  mkWorld true (Ok tt) (fun _ => Ok tt) (Ok "lease-1") (fun _ => Ok tt) (fun _ => Ok tt).

(** The same, with a different lease id. *)
Definition world_ok' : world :=
  mkWorld true (Ok tt) (fun _ => Ok tt) (Ok "lease-2") (fun _ => Ok tt) (fun _ => Ok tt).

(** The blob is already leased. *)
Definition world_conflict : world :=
  mkWorld true (Ok tt) (fun _ => Ok tt)
    (Raise (mkExn ResourceExistsError "There is already a lease present."))
    (fun _ => Ok tt) (fun _ => Ok tt).

(** The lease is taken, the queue binding fails. *)
Definition world_emit_fails : world :=
  mkWorld true (Ok tt) (fun _ => Ok tt) (Ok "lease-1")
    (fun _ => Raise (mkExn OtherException "queue binding failed")) (fun _ => Ok tt).

(** The lease is taken, giving it back fails. *)
Definition world_release_fails : world :=
  mkWorld true (Ok tt) (fun _ => Ok tt) (Ok "lease-1") (fun _ => Ok tt)
    (fun _ => Raise (mkExn HttpResponseError "lease release failed")).

(** The module as it stands alone: nothing binds the name [_]. *)
Definition world_unbound : world :=
  mkWorld false (Ok tt) (fun _ => Ok tt) (Ok "lease-1") (fun _ => Ok tt) (fun _ => Ok tt).

(** *** Counting calls, and the shape of an emitted text *)

Definition is_acquire_call (ev : event) : bool :=
  match ev with EvAcquire _ => true | _ => false end.

Definition is_release_call (ev : event) : bool :=
  match ev with EvRelease _ _ => true | _ => false end.

Definition is_log_record (ev : event) : bool :=
  match ev with EvLog _ _ _ => true | _ => false end.

Definition count_events (kind : event -> bool) (tr : list event) : nat :=
  List.length (filter kind tr).

(** A character of the printable ASCII range, space to tilde. *)
Definition printable (c : ascii) : bool :=
  ((32 <=? N_of_ascii c) && (N_of_ascii c <=? 126))%N.

Fixpoint all_chars (ok : ascii -> bool) (s : string) : bool :=
  match s with
  | EmptyString => true
  | String c r => ok c && all_chars ok r
  end.

(** The value of a hexadecimal digit as [hex_digit] writes it. *)
Definition hex_value (c : ascii) : N :=
  let n := N_of_ascii c in
  if (n <? 58)%N then (n - 48)%N else (n - 87)%N.

(** Reads back the inside of a string literal written by [encode_str], up
    to and including its closing quote: the inverse used to show that the
    encoding loses nothing.  [None] on a text [encode_str] does not write. *)
Fixpoint decode_body (s : string) : option string :=
  match s with
  | EmptyString => None
  | String c r =>
      if Ascii.eqb c dquote then
        match r with EmptyString => Some EmptyString | _ => None end
      else if Ascii.eqb c "\" then
        match r with
        | String d r' =>
            if Ascii.eqb d "u" then
              match r' with
              | String _ (String _ (String h1 (String h2 r''))) =>
                  option_map (String (ascii_of_N (16 * hex_value h1 + hex_value h2)))
                             (decode_body r'')
              | _ => None
              end
            else
              let plain :=
                if Ascii.eqb d "b" then ascii_of_N 8
                else if Ascii.eqb d "f" then ascii_of_N 12
                else if Ascii.eqb d "n" then ascii_of_N 10
                else if Ascii.eqb d "r" then ascii_of_N 13
                else if Ascii.eqb d "t" then ascii_of_N 9
                else d in
              option_map (String plain) (decode_body r')
        | EmptyString => None
        end
      else option_map (String c) (decode_body r)
  end.

Definition decode_str (s : string) : option string :=
  match s with
  | String c r => if Ascii.eqb c dquote then decode_body r else None
  | EmptyString => None
  end.

(** *** The paths through one invocation *)

(** The eight ways an invocation can go, each with the outcome and the
    final state it leaves: the payload is not an object; the client cannot
    be built; [acquire_lease()] raises; or the lease is taken and the queue
    binding answers or raises.  A raised exception is either caught by an
    [except] clause or not.  [invoke_path] below shows that [invoke] always
    follows one of them. *)
Inductive path (w : world) (event : EventGridEvent) : outcome unit * state -> Prop :=
| path_payload :
    (forall fields, data event <> JObj fields) ->
    path w event (Raise (no_attribute (data event) "get"), initial)
| path_client_caught fields e :
    data event = JObj fields ->
    client_construction w (parsed_of event fields) = Raise e ->
    is_Exception e = true ->
    path w event (Ok tt, mkState None [caught_log (parsed_of event fields) e])
| path_client_uncaught fields e :
    data event = JObj fields ->
    client_construction w (parsed_of event fields) = Raise e ->
    is_Exception e = false ->
    path w event (Raise e, mkState None [])
| path_acquire_caught fields e :
    data event = JObj fields ->
    client_construction w (parsed_of event fields) = Ok tt ->
    acquire_lease w = Raise e ->
    is_Exception e = true ->
    path w event
      (Ok tt,
       mkState None [EvAcquire (Raise e); caught_log (parsed_of event fields) e])
| path_acquire_uncaught fields e :
    data event = JObj fields ->
    client_construction w (parsed_of event fields) = Ok tt ->
    acquire_lease w = Raise e ->
    is_Exception e = false ->
    path w event (Raise e, mkState None [EvAcquire (Raise e)])
| path_emitted fields h :
    data event = JObj fields ->
    client_construction w (parsed_of event fields) = Ok tt ->
    acquire_lease w = Ok h ->
    msg_set w (message_text (parsed_of event fields)) = Ok tt ->
    path w event
      (after_finally (Ok tt) (release w h),
       mkState (Some h)
         [EvAcquire (Ok h);
          EvMsgSet (message_text (parsed_of event fields)) (Ok tt);
          EvRelease h (release w h)])
| path_emit_caught fields h e :
    data event = JObj fields ->
    client_construction w (parsed_of event fields) = Ok tt ->
    acquire_lease w = Ok h ->
    msg_set w (message_text (parsed_of event fields)) = Raise e ->
    is_Exception e = true ->
    path w event
      (after_finally (Ok tt) (release w h),
       mkState (Some h)
         [EvAcquire (Ok h);
          EvMsgSet (message_text (parsed_of event fields)) (Raise e);
          caught_log (parsed_of event fields) e;
          EvRelease h (release w h)])
| path_emit_uncaught fields h e :
    data event = JObj fields ->
    client_construction w (parsed_of event fields) = Ok tt ->
    acquire_lease w = Ok h ->
    msg_set w (message_text (parsed_of event fields)) = Raise e ->
    is_Exception e = false ->
    path w event
      (after_finally (Raise e) (release w h),
       mkState (Some h)
         [EvAcquire (Ok h);
          EvMsgSet (message_text (parsed_of event fields)) (Raise e);
          EvRelease h (release w h)]).

(** ** Facts about the value layer *)

Lemma string_app_assoc (a b c : string) : (a ++ b) ++ c = a ++ (b ++ c).
Proof. induction a as [|x a IH]; simpl; [reflexivity | now rewrite IH]. Qed.

Lemma string_app_nil_r (a : string) : a ++ "" = a.
Proof. induction a as [|x a IH]; simpl; [reflexivity | now rewrite IH]. Qed.

Section Split.

Variable sep : ascii.

Lemma split_aux_nonempty (s cur : string) : split_aux sep s cur <> [].
Proof.
  revert cur; induction s as [|c r IH]; intros cur; simpl.
  - discriminate.
  - destruct (Ascii.eqb c sep); [discriminate | apply IH].
Qed.

Lemma index_last_cons {A} (x : A) (xs : list A) :
  xs <> [] -> index_last (x :: xs) = index_last xs.
Proof. destruct xs; [congruence | reflexivity]. Qed.

Lemma index_last_defined {A} (xs : list A) :
  xs <> [] -> exists x, index_last xs = Ok x.
Proof.
  induction xs as [|x r IH]; [congruence|]; intros _.
  destruct r as [|y r'].
  - exists x; reflexivity.
  - rewrite index_last_cons by discriminate. apply IH; discriminate.
Qed.

(** Whatever precedes a separator has no part in the last segment. *)
Lemma last_segment_after_sep (p t cur : string) :
  index_last (split_aux sep (p ++ String sep t) cur)
  = index_last (split_aux sep t "").
Proof.
  revert cur; induction p as [|c p' IH]; intros cur; simpl.
  - rewrite Ascii.eqb_refl.
    apply index_last_cons, split_aux_nonempty.
  - destruct (Ascii.eqb c sep).
    + rewrite index_last_cons by apply split_aux_nonempty. apply IH.
    + apply IH.
Qed.

Lemma rev_string_acc (s acc : string) :
  rev_string acc s = rev_string "" s ++ acc.
Proof.
  revert acc; induction s as [|c r IH]; intros acc; simpl.
  - reflexivity.
  - rewrite (IH (String c acc)), (IH (String c "")).
    rewrite string_app_assoc. reflexivity.
Qed.

Lemma split_aux_sep_free (s cur : string) :
  sep_free sep s = true -> split_aux sep s cur = [rev_string "" cur ++ s].
Proof.
  revert cur; induction s as [|c r IH]; intros cur H; simpl in *.
  - rewrite string_app_nil_r. reflexivity.
  - apply andb_true_iff in H as [Hc Hr].
    apply negb_true_iff in Hc. rewrite Hc.
    rewrite (IH _ Hr). simpl.
    rewrite (rev_string_acc cur (String c "")).
    rewrite string_app_assoc. reflexivity.
Qed.

Lemma split_sep_free (s : string) : sep_free sep s = true -> split sep s = [s].
Proof. intros H. unfold split. rewrite split_aux_sep_free by exact H. reflexivity. Qed.

(** The last segment of [p ++ sep ++ name] is [name] when [name] holds no
    separator. *)
Lemma last_segment_spec (p name : string) :
  sep_free sep name = true ->
  index_last (split sep (p ++ String sep name)) = Ok name.
Proof.
  intros H. unfold split. rewrite last_segment_after_sep.
  rewrite split_aux_sep_free by exact H. reflexivity.
Qed.

End Split.

Lemma index_last_last {A} (xs : list A) (d : A) :
  xs <> [] -> index_last xs = Ok (last xs d).
Proof.
  induction xs as [|x r IH]; [congruence|]; intros _.
  destruct r as [|y r']; [reflexivity|].
  rewrite index_last_cons by discriminate.
  change (last (x :: y :: r') d) with (last (y :: r') d).
  apply IH; discriminate.
Qed.

Lemma blob_name_defined (s : string) :
  index_last (split "/" s) = Ok (last_segment s).
Proof. apply index_last_last, split_aux_nonempty. Qed.

Lemma last_segment_trailing_slash (p : string) : last_segment (p ++ "/") = "".
Proof.
  pose proof (blob_name_defined (p ++ "/")) as H.
  unfold split in H. rewrite (last_segment_after_sep "/" p "" "") in H.
  simpl in H. congruence.
Qed.

(** ** The handler, path by path *)

(** Lines 46 to 62 on an object payload: a value, and the state untouched. *)
Lemma build_result_object (event : EventGridEvent) (fields : list (string * json)) (s : state) :
  data event = JObj fields ->
  build_result event s = (Ok (parsed_of event fields), s).
Proof.
  intros Hd. unfold build_result, get_json, bind, lift, ret.
  rewrite blob_name_defined, Hd. reflexivity.
Qed.

(** On any other payload line 48 raises, before the [try] is entered. *)
Lemma build_result_not_object (event : EventGridEvent) (s : state) :
  (forall fields, data event <> JObj fields) ->
  build_result event s = (Raise (no_attribute (data event) "get"), s).
Proof.
  intros Hd. unfold build_result, get_json, bind, lift, ret.
  rewrite blob_name_defined.
  destruct (data event) as [| | | | | |fields]; try reflexivity.
  exfalso; exact (Hd fields eq_refl).
Qed.

Lemma dispatch_except_clauses (p : parsed) (e : exn) (s : state) :
  dispatch (except_clauses p) e s
  = (fst (after_except p e), mkState (lease s) (trace s ++ snd (after_except p e))).
Proof.
  destruct s as [l tr], e as [c m].
  destruct c; unfold after_except; simpl; try reflexivity.
  rewrite app_nil_r. reflexivity.
Qed.

(** The [try] body, by the first call that fails. *)
Lemma try_body_run (w : world) (p : parsed) (s : state) :
  try_body w p s =
  match client_construction w p with
  | Raise e => (Raise e, s)
  | Ok _ =>
      match acquire_lease w with
      | Raise e => (Raise e, mkState (lease s) (trace s ++ [EvAcquire (Raise e)]))
      | Ok h =>
          (msg_set w (message_text p),
           mkState (Some h)
             (trace s ++ [EvAcquire (Ok h);
                          EvMsgSet (message_text p) (msg_set w (message_text p))]))
      end
  end.
Proof.
  unfold try_body, client_construction, load_underscore, call, emit, lift,
    set_lease, bind, ret, raise, message_text.
  destruct (underscore_bound w); [|reflexivity].
  destruct (DefaultAzureCredential w) as [[]|e]; [|reflexivity].
  destruct (from_blob_url w (blob_url p)) as [[]|e]; [|reflexivity].
  destruct (acquire_lease w) as [h|e]; [|reflexivity].
  simpl. rewrite <- app_assoc. simpl.
  destruct (msg_set w _); reflexivity.
Qed.

Lemma finally_block_run (w : world) (s : state) :
  finally_block w s =
  match lease s with
  | None => (Ok tt, s)
  | Some h => (release w h, mkState (lease s) (trace s ++ [EvRelease h (release w h)]))
  end.
Proof.
  destruct s as [[h|] tr];
    unfold finally_block, get_lease, call, emit, lift, bind, ret; simpl;
    [|reflexivity].
  destruct (release w h); reflexivity.
Qed.

(** One invocation on an object payload. *)
Lemma invoke_object (w : world) (event : EventGridEvent) (fields : list (string * json)) :
  data event = JObj fields ->
  invoke w event =
  let p := parsed_of event fields in
  match client_construction w p with
  | Raise e => (fst (after_except p e), mkState None (snd (after_except p e)))
  | Ok _ =>
      match acquire_lease w with
      | Raise e =>
          (fst (after_except p e),
           mkState None (EvAcquire (Raise e) :: snd (after_except p e)))
      | Ok h =>
          let o := msg_set w (message_text p) in
          (after_finally (fst (after_body p o)) (release w h),
           mkState (Some h)
             ([EvAcquire (Ok h); EvMsgSet (message_text p) o]
                ++ snd (after_body p o) ++ [EvRelease h (release w h)]))
      end
  end.
Proof.
  intros Hd. unfold invoke, file_drop_trigger, bind, set_lease. simpl.
  rewrite (build_result_object _ _ _ Hd).
  unfold try_finally, try_except. rewrite try_body_run.
  cbv zeta.
  destruct (client_construction w (parsed_of event fields)) as [[]|e].
  - destruct (acquire_lease w) as [h|e].
    + destruct (msg_set w (message_text (parsed_of event fields))) as [[]|e].
      * rewrite finally_block_run. simpl.
        destruct (release w h) as [[]|e']; reflexivity.
      * rewrite dispatch_except_clauses, finally_block_run. simpl.
        destruct (release w h) as [[]|e']; reflexivity.
    + rewrite dispatch_except_clauses, finally_block_run. simpl.
      destruct (fst (after_except (parsed_of event fields) e)) as [[]|e']; reflexivity.
  - rewrite dispatch_except_clauses, finally_block_run. simpl.
    destruct (fst (after_except (parsed_of event fields) e)) as [[]|e']; reflexivity.
Qed.

(** One invocation on a payload that is not an object. *)
Lemma invoke_not_object (w : world) (event : EventGridEvent) :
  (forall fields, data event <> JObj fields) ->
  invoke w event = (Raise (no_attribute (data event) "get"), initial).
Proof.
  intros Hd. unfold invoke, file_drop_trigger, bind, set_lease. simpl.
  rewrite (build_result_not_object _ _ Hd). reflexivity.
Qed.

Lemma object_or_not (v : json) :
  (exists fields, v = JObj fields) \/ (forall fields, v <> JObj fields).
Proof.
  destruct v; try (right; intros ? ?; discriminate).
  left; eexists; reflexivity.
Qed.

(** ** Reading the trace of an invocation *)

Lemma after_except_trace (p : parsed) (e : exn) :
  snd (after_except p e) = []
  \/ exists level fmt arg, snd (after_except p e) = [EvLog level fmt arg].
Proof.
  unfold after_except, caught_log.
  destruct (is_Exception e); [right | left; reflexivity].
  destruct (is_ResourceExistsError e); [|destruct (is_ResourceNotFoundError e)];
    simpl; eauto.
Qed.

Lemma after_body_trace (p : parsed) (o : outcome unit) :
  snd (after_body p o) = []
  \/ exists level fmt arg, snd (after_body p o) = [EvLog level fmt arg].
Proof.
  destruct o as [[]|e]; simpl; [left; reflexivity | apply after_except_trace].
Qed.

Lemma after_except_caught (p : parsed) (e : exn) :
  is_Exception e = true -> fst (after_except p e) = Ok tt.
Proof. intros H. unfold after_except. rewrite H. reflexivity. Qed.

Lemma conflict_is_Exception (e : exn) :
  is_ResourceExistsError e = true \/ is_ResourceNotFoundError e = true ->
  is_Exception e = true.
Proof.
  destruct e as [c m]; destruct c; simpl; intros [H|H];
    first [reflexivity | discriminate].
Qed.

Lemma assoc_get_absent (k : string) (fields : list (string * json)) :
  ~ In k (map fst fields) -> assoc_get k fields = JNull.
Proof.
  induction fields as [|[k' v] r IH]; simpl; intros H; [reflexivity|].
  destruct (String.eqb_spec k k') as [->|Hne].
  - exfalso; apply H; left; reflexivity.
  - apply IH. intros Hin; apply H; right; exact Hin.
Qed.

(** Closes a goal whose hypothesis claims an event in a trace that does not
    hold it. *)
Ltac not_in_trace H :=
  simpl in H;
  repeat (destruct H as [H|H]; [discriminate H|]);
  try contradiction.

(** A lease acquired during the invocation is the one [acquire_lease]
    answered with. *)
Lemma acquired_inv (w : world) (event : EventGridEvent) (h : lease_handle) :
  acquired (trace (snd (invoke w event))) h ->
  exists fields,
    data event = JObj fields
    /\ client_construction w (parsed_of event fields) = Ok tt
    /\ acquire_lease w = Ok h.
Proof.
  unfold acquired.
  destruct (object_or_not (data event)) as [[fields Hd]|Hno].
  - rewrite (invoke_object w event fields Hd); cbv zeta.
    destruct (client_construction w (parsed_of event fields)) as [[]|e] eqn:Hc.
    + destruct (acquire_lease w) as [h'|e] eqn:Hacq.
      * intros H. exists fields. repeat split; try assumption.
        simpl in H. destruct H as [H|H]; [congruence|].
        destruct H as [H|H]; [discriminate|].
        apply in_app_or in H as [H|H].
        -- destruct (after_body_trace (parsed_of event fields)
                       (msg_set w (message_text (parsed_of event fields))))
             as [E|(l & f & a & E)]; rewrite E in H; not_in_trace H.
        -- not_in_trace H.
      * intros H. simpl in H. destruct H as [H|H]; [discriminate|].
        destruct (after_except_trace (parsed_of event fields) e)
          as [E|(l & f & a & E)]; rewrite E in H; not_in_trace H.
    + intros H. simpl in H.
      destruct (after_except_trace (parsed_of event fields) e)
        as [E|(l & f & a & E)]; rewrite E in H; not_in_trace H.
  - rewrite (invoke_not_object w event Hno). intros H; not_in_trace H.
Qed.

(** The invocation once the lease is known to have been acquired. *)
Lemma invoke_acquired (w : world) (event : EventGridEvent) (h : lease_handle) :
  acquired (trace (snd (invoke w event))) h ->
  exists fields,
    data event = JObj fields /\
    let p := parsed_of event fields in
    let o := msg_set w (message_text p) in
    invoke w event =
    (after_finally (fst (after_body p o)) (release w h),
     mkState (Some h)
       ([EvAcquire (Ok h); EvMsgSet (message_text p) o]
          ++ snd (after_body p o) ++ [EvRelease h (release w h)])).
Proof.
  intros H. destruct (acquired_inv w event h H) as (fields & Hd & Hc & Hacq).
  exists fields. split; [exact Hd|]. cbv zeta.
  rewrite (invoke_object w event fields Hd). cbv zeta.
  rewrite Hc, Hacq. reflexivity.
Qed.

(** With the lease acquired and the queue binding answering, the binding
    holds one text, the one line 70 computes. *)
Lemma emitted_message (w : world) (event : EventGridEvent) (fields : list (string * json)) :
  data event = JObj fields ->
  lease_acquired (trace (snd (invoke w event))) ->
  emission_succeeds w ->
  messages (trace (snd (invoke w event))) = [message_text (parsed_of event fields)].
Proof.
  intros Hd [h Hacq] Hemit.
  destruct (invoke_acquired w event h Hacq) as (fields' & Hd' & Hrun).
  assert (fields' = fields) by congruence. subst fields'.
  cbv zeta in Hrun. rewrite Hrun. rewrite Hemit. simpl.
  destruct (release w h); reflexivity.
Qed.

(** Whatever text the binding holds is the one line 70 computes from the
    notification. *)
Lemma messages_inv (w : world) (event : EventGridEvent) (m : string) :
  In m (messages (trace (snd (invoke w event)))) ->
  exists fields,
    data event = JObj fields /\ m = message_text (parsed_of event fields)
    /\ lease_acquired (trace (snd (invoke w event))).
Proof.
  destruct (object_or_not (data event)) as [[fields Hd]|Hno].
  - intros H. exists fields. split; [exact Hd|]. revert H.
    unfold lease_acquired, acquired.
    rewrite (invoke_object w event fields Hd); cbv zeta.
    destruct (client_construction w (parsed_of event fields)) as [[]|e].
    + destruct (acquire_lease w) as [h|e].
      * destruct (msg_set w (message_text (parsed_of event fields))) as [[]|e].
        -- simpl. destruct (release w h); simpl; intros [H|[]];
             (split; [congruence | exists h; left; reflexivity]).
        -- simpl.
           destruct (after_except_trace (parsed_of event fields) e)
             as [E|(l & f & a & E)]; rewrite E; simpl;
             destruct (release w h); simpl; intros [].
      * simpl.
        destruct (after_except_trace (parsed_of event fields) e)
          as [E|(l & f & a & E)]; rewrite E; simpl; intros [].
    + simpl.
      destruct (after_except_trace (parsed_of event fields) e)
        as [E|(l & f & a & E)]; rewrite E; simpl; intros [].
  - rewrite (invoke_not_object w event Hno). simpl. intros [].
Qed.

(** The module on its own binds no name [_]: line 67 raises [NameError]
    on every invocation, the catch-all clause logs it, and neither a lease
    nor a message comes out. *)
Lemma unbound_underscore_is_silent (w : world) (event : EventGridEvent) :
  underscore_bound w = false ->
  messages (trace (snd (invoke w event))) = []
  /\ ~ lease_acquired (trace (snd (invoke w event))).
Proof.
  intros Hu. split.
  - destruct (messages (trace (snd (invoke w event)))) as [|m r] eqn:E;
      [reflexivity|].
    destruct (messages_inv w event m) as (fields & Hd & _ & h & Hacq);
      [rewrite E; left; reflexivity|].
    destruct (acquired_inv w event h Hacq) as (fields' & _ & Hc & _).
    unfold client_construction in Hc. rewrite Hu in Hc. discriminate.
  - intros [h Hacq].
    destruct (acquired_inv w event h Hacq) as (fields' & _ & Hc & _).
    unfold client_construction in Hc. rewrite Hu in Hc. discriminate.
Qed.

(** A failure of the client construction is one of its three steps'. *)
Lemma client_construction_ordinary (w : world) (p : parsed) (e : exn) :
  ordinary_failures w ->
  client_construction w p = Raise e ->
  is_Exception e = true.
Proof.
  intros (Hcred & Hurl & _) Hc. unfold client_construction in Hc.
  destruct (underscore_bound w).
  - destruct (DefaultAzureCredential w) as [[]|e'].
    + specialize (Hurl (blob_url p)). rewrite Hc in Hurl. exact Hurl.
    + injection Hc as <-. exact Hcred.
  - injection Hc as <-. reflexivity.
Qed.

(** On an object payload, with failures that derive from [Exception] and a
    [release()] that comes back, the handler returns normally. *)
Lemma returns_normally (w : world) (event : EventGridEvent)
    (fields : list (string * json)) :
  data event = JObj fields ->
  ordinary_failures w ->
  (forall h, acquire_lease w = Ok h -> release w h = Ok tt) ->
  fst (invoke w event) = Ok tt.
Proof.
  intros Hd Hord Hrel.
  rewrite (invoke_object w event fields Hd); cbv zeta.
  destruct (client_construction w (parsed_of event fields)) as [[]|e] eqn:Hc.
  - destruct Hord as (_ & _ & Hacq & Hset).
    destruct (acquire_lease w) as [h|e] eqn:Ha.
    + simpl. rewrite (Hrel h eq_refl). simpl.
      specialize (Hset (message_text (parsed_of event fields))).
      destruct (msg_set w (message_text (parsed_of event fields))) as [[]|e];
        [reflexivity|].
      simpl. apply after_except_caught. exact Hset.
    + simpl. apply after_except_caught. exact Hacq.
  - simpl. apply after_except_caught.
    exact (client_construction_ordinary w _ e Hord Hc).
Qed.

(** The module as it stands: the name [_] is unbound, the catch-all clause
    logs the [NameError], nothing else happens. *)
Example module_alone_emits_nothing :
  invoke world_unbound sample_event
  = (Ok tt,
     mkState None
       [EvLog ERROR "Unexpected error occurred: %s" (JStr "name '_' is not defined")]).
Proof. reflexivity. Qed.

(** The subject of a blob-created notification and its blob name. *)
Example blob_name_of_sample :
  index_last (split "/" (subject sample_event)) = Ok "report-2024.csv".
Proof. reflexivity. Qed.

(** *** Reading a serialised text *)

Lemma decode_escape_char (c : ascii) (r : string) :
  decode_body (escape_char c ++ r) = option_map (String c) (decode_body r).
Proof.
  destruct c as [[] [] [] [] [] [] [] []]; reflexivity.
Qed.

Lemma decode_escape_chars (s : string) :
  decode_body (escape_chars s ++ String dquote "") = Some s.
Proof.
  induction s as [|c r IH]; simpl; [reflexivity|].
  rewrite string_app_assoc, decode_escape_char, IH. reflexivity.
Qed.

(** What [encode_str] writes reads back as the string it was given. *)
Lemma decode_encode_str (s : string) : decode_str (encode_str s) = Some s.
Proof. unfold encode_str. simpl. apply decode_escape_chars. Qed.

(** The text of an object holds the text of each of its entries. *)
Lemma concat_holds_item (sep : string) (before : list string) (x : string)
    (after : list string) :
  exists a b, String.concat sep (before ++ x :: after)%list = a ++ x ++ b.
Proof.
  induction before as [|y before IH]; simpl.
  - destruct after as [|z after].
    + exists "", "". simpl. rewrite string_app_nil_r. reflexivity.
    + exists "", (sep ++ String.concat sep (z :: after)). reflexivity.
  - destruct IH as (a & b & E).
    destruct (before ++ x :: after)%list as [|z rest] eqn:El.
    + destruct before; discriminate El.
    + exists (y ++ sep ++ a), b. rewrite E.
      rewrite !string_app_assoc. reflexivity.
Qed.

Lemma json_dumps_holds_entry (before : list (string * json)) (k : string) (v : json)
    (after : list (string * json)) :
  exists a b,
    json_dumps (JObj (before ++ (k, v) :: after))
    = a ++ (encode_str k ++ ": " ++ json_dumps v) ++ b.
Proof.
  pose (text := fun kv : string * json =>
                  encode_str (fst kv) ++ ": " ++ json_dumps (snd kv)).
  change (json_dumps (JObj (before ++ (k, v) :: after)))
    with ("{" ++ String.concat ", " (map text (before ++ (k, v) :: after)) ++ "}").
  rewrite map_app.
  change (map text ((k, v) :: after))
    with ((encode_str k ++ ": " ++ json_dumps v) :: map text after).
  destruct (concat_holds_item ", " (map text before)
              (encode_str k ++ ": " ++ json_dumps v) (map text after))
    as (a & b & E).
  exists (String "{" a), (b ++ "}").
  rewrite E. clear E.
  generalize (encode_str k ++ ": " ++ json_dumps v). intros x.
  simpl. rewrite !string_app_assoc. reflexivity.
Qed.

(** ** The claims *)

(** C1.  On the sample notification, with the lease acquired, the queue
    binding holds exactly one text.  That text is the JSON encoding of a
    string, namely of the already serialised record (line 49 serialises the
    record, line 70 serialises the result again), and the record carries
    the subject under the key [subkect].  So the text is neither the
    serialisation of the record the specification describes, nor that of
    the record the code builds; and even the inner serialisation differs
    from the specified one. *)
Theorem C1_emitted_text_at_sample :
  let built :=
    relay_record sample_event "report-2024.csv"
      (JStr "https://acct.blob.core.windows.net/uploads/report-2024.csv")
      (JStr "BlockBlob") (JStr "text/csv") JNull in
  let specified :=
    spec_relay_message sample_event "report-2024.csv"
      (JStr "https://acct.blob.core.windows.net/uploads/report-2024.csv")
      (JStr "BlockBlob") (JStr "text/csv") JNull in
  lease_acquired (trace (snd (invoke world_ok sample_event)))
  /\ messages (trace (snd (invoke world_ok sample_event)))
     = [json_dumps (JStr (json_dumps built))]
  /\ json_dumps (JStr (json_dumps built)) <> json_dumps specified
  /\ json_dumps (JStr (json_dumps built)) <> json_dumps built
  /\ json_dumps built <> json_dumps specified
  /\ py_get built "subject" = Ok JNull
  /\ py_get built "subkect" = Ok (JStr (subject sample_event)).
Proof.
  cbv zeta. split; [|split; [|split; [|split; [|split; [|split]]]]].
  - exists "lease-1". left. reflexivity.
  - vm_compute. reflexivity.
  - apply String.eqb_neq. vm_compute. reflexivity.
  - apply String.eqb_neq. vm_compute. reflexivity.
  - apply String.eqb_neq. vm_compute. reflexivity.
  - reflexivity.
  - reflexivity.
Qed.

(** C2.  A text reaches the queue binding only in an invocation that
    acquired the lease; an invocation that did not acquire it, for whatever
    reason, leaves the binding empty and holds no lease when it ends; and
    every handle that was obtained has had [release()] called on it. *)
Theorem C2_message_only_under_lease (w : world) (event : EventGridEvent) :
  let tr := trace (snd (invoke w event)) in
  (messages tr <> [] -> lease_acquired tr)
  /\ (~ lease_acquired tr ->
      messages tr = [] /\ leases_held tr = []
      /\ lease (snd (invoke w event)) = None)
  /\ (forall h, acquired tr h -> release_called tr h).
Proof.
  cbv zeta. split; [|split].
  - intros Hm.
    destruct (messages (trace (snd (invoke w event)))) as [|m r] eqn:E;
      [congruence|].
    destruct (messages_inv w event m) as (_ & _ & _ & Hacq);
      [rewrite E; left; reflexivity | exact Hacq].
  - unfold lease_acquired, acquired.
    destruct (object_or_not (data event)) as [[fields Hd]|Hno].
    + rewrite (invoke_object w event fields Hd); cbv zeta.
      destruct (client_construction w (parsed_of event fields)) as [[]|e].
      * destruct (acquire_lease w) as [h|e].
        -- intros Hn. exfalso. apply Hn. exists h. left. reflexivity.
        -- intros _. simpl.
           destruct (after_except_trace (parsed_of event fields) e)
             as [E|(l & f & a & E)]; rewrite E; repeat split.
      * intros _. simpl.
        destruct (after_except_trace (parsed_of event fields) e)
          as [E|(l & f & a & E)]; rewrite E; repeat split.
    + rewrite (invoke_not_object w event Hno). repeat split.
  - intros h Hacq.
    destruct (invoke_acquired w event h Hacq) as (fields & _ & Hrun).
    cbv zeta in Hrun. rewrite Hrun. exists (release w h). simpl.
    right. right. apply in_or_app. right. left. reflexivity.
Qed.

Lemma C2_witness :
  lease_acquired (trace (snd (invoke world_ok sample_event)))
  /\ messages (trace (snd (invoke world_conflict sample_event))) = []
  /\ release_called (trace (snd (invoke world_ok sample_event))) "lease-1".
Proof.
  split; [|split].
  - apply (C2_message_only_under_lease world_ok sample_event).
    vm_compute. discriminate.
  - apply (C2_message_only_under_lease world_conflict sample_event).
    intros [h H]. vm_compute in H.
    repeat (destruct H as [H|H]; [discriminate H|]). exact H.
  - apply (C2_message_only_under_lease world_ok sample_event).
    vm_compute. left. reflexivity.
Defined.

(** C3, as amended.  For a notification whose payload is a JSON object,
    every failure derived from [Exception] that is raised inside the [try]
    block (evaluating the credential, building the blob client, acquiring
    the lease, handing the text to the queue binding) is caught, and the
    handler returns normally, provided the [release()] call of the
    [finally] block does not itself raise. *)
Theorem C3_failures_in_try_are_caught (w : world) (event : EventGridEvent)
    (fields : list (string * json)) :
  data event = JObj fields ->
  ordinary_failures w ->
  (forall h, acquire_lease w = Ok h -> release w h = Ok tt) ->
  fst (invoke w event) = Ok tt.
Proof. apply returns_normally. Qed.

Lemma C3_witness : fst (invoke world_emit_fails sample_event) = Ok tt.
Proof.
  apply (C3_failures_in_try_are_caught world_emit_fails sample_event sample_fields).
  - reflexivity.
  - repeat split; intros; reflexivity.
  - intros h _. reflexivity.
Defined.

(** C3 as stated fails.  A notification whose payload is [null] makes line
    48 raise [AttributeError] before the [try] is entered; and when the
    lease has been acquired, an exception of [release()] leaves the
    [finally] block uncaught.  Both reach the caller. *)
Lemma C3_counterexample :
  fst (invoke world_ok (mkEvent "evt-0002" "/blobs/a.csv" "t" "et" JNull))
  = Raise (mkExn AttributeError "'NoneType' object has no attribute 'get'")
  /\ fst (invoke world_release_fails sample_event)
     = Raise (mkExn HttpResponseError "lease release failed").
Proof. split; vm_compute; reflexivity. Qed.

(** C4.  When [acquire_lease()] raises the conflict error or the not-found
    error, the queue binding stays empty and the handler returns normally. *)
Theorem C4_conflict_and_not_found_are_silent (w : world) (event : EventGridEvent)
    (e : exn) :
  acquisition_raised (trace (snd (invoke w event))) e ->
  is_ResourceExistsError e = true \/ is_ResourceNotFoundError e = true ->
  fst (invoke w event) = Ok tt
  /\ messages (trace (snd (invoke w event))) = [].
Proof.
  unfold acquisition_raised.
  destruct (object_or_not (data event)) as [[fields Hd]|Hno].
  - rewrite (invoke_object w event fields Hd); cbv zeta.
    destruct (client_construction w (parsed_of event fields)) as [[]|e'].
    + destruct (acquire_lease w) as [h|e'].
      * intros H _. exfalso. simpl in H.
        destruct H as [H|H]; [discriminate|].
        destruct H as [H|H]; [discriminate|].
        apply in_app_or in H as [H|H].
        -- destruct (after_body_trace (parsed_of event fields)
                       (msg_set w (message_text (parsed_of event fields))))
             as [E|(l & f & a & E)]; rewrite E in H; not_in_trace H.
        -- not_in_trace H.
      * intros H Hcls. simpl in H.
        assert (e' = e) as ->.
        { destruct H as [H|H]; [congruence|]. exfalso.
          destruct (after_except_trace (parsed_of event fields) e')
            as [E|(l & f & a & E)]; rewrite E in H; not_in_trace H. }
        simpl. split.
        -- apply after_except_caught, conflict_is_Exception, Hcls.
        -- destruct (after_except_trace (parsed_of event fields) e)
             as [E|(l & f & a & E)]; rewrite E; reflexivity.
    + intros H _. exfalso. simpl in H.
      destruct (after_except_trace (parsed_of event fields) e')
        as [E|(l & f & a & E)]; rewrite E in H; not_in_trace H.
  - rewrite (invoke_not_object w event Hno). intros H; not_in_trace H.
Qed.

Lemma C4_witness :
  fst (invoke world_conflict sample_event) = Ok tt
  /\ messages (trace (snd (invoke world_conflict sample_event))) = [].
Proof.
  apply (C4_conflict_and_not_found_are_silent world_conflict sample_event
           (mkExn ResourceExistsError "There is already a lease present.")).
  - vm_compute. left. reflexivity.
  - left. reflexivity.
Defined.

(** C5.  Once a lease handle has been obtained, the last thing the
    invocation does is call [release()] on it: after a successful
    emission, after an emission that raised and was caught, and after one
    whose exception no clause catches.  If that call comes back the
    invocation holds no lease; in particular it holds none whenever the
    handler returns normally. *)
Theorem C5_lease_released_on_every_exit (w : world) (event : EventGridEvent)
    (h : lease_handle) :
  acquired (trace (snd (invoke w event))) h ->
  (exists before,
      trace (snd (invoke w event)) = (before ++ [EvRelease h (release w h)])%list)
  /\ (release w h = Ok tt -> leases_held (trace (snd (invoke w event))) = [])
  /\ (fst (invoke w event) = Ok tt ->
      leases_held (trace (snd (invoke w event))) = []).
Proof.
  intros Hacq.
  destruct (invoke_acquired w event h Hacq) as (fields & _ & Hrun).
  cbv zeta in Hrun. rewrite Hrun. simpl.
  set (p := parsed_of event fields) in *.
  set (o := msg_set w (message_text p)) in *.
  assert (Hheld : release w h = Ok tt ->
            leases_held (EvAcquire (Ok h) :: EvMsgSet (message_text p) o
                           :: snd (after_body p o) ++ [EvRelease h (release w h)])%list = []).
  { intros ->. unfold leases_held.
    destruct (after_body_trace p o) as [E|(l & f & a & E)]; rewrite E;
      simpl; destruct o as [[]|?]; simpl; rewrite String.eqb_refl; reflexivity. }
  split; [|split].
  - exists (EvAcquire (Ok h) :: EvMsgSet (message_text p) o :: snd (after_body p o)).
    reflexivity.
  - exact Hheld.
  - intros Hret. apply Hheld.
    destruct (release w h) as [[]|e]; [reflexivity | discriminate].
Qed.

Lemma C5_witness :
  leases_held (trace (snd (invoke world_emit_fails sample_event))) = [].
Proof.
  apply (C5_lease_released_on_every_exit world_emit_fails sample_event "lease-1").
  - vm_compute. left. reflexivity.
  - reflexivity.
Defined.

(** C6.  For a payload without the key [contentLength], lines 46 to 62
    still come back with a value, and the record they serialise binds
    [content_length] to [null]: its text holds the entry
    ["content_length": null].  With the lease acquired and the queue binding
    answering, the binding holds exactly one text, the JSON string that
    line 70 makes of that record text and that reads back as it. *)
Theorem C6_missing_content_length (w : world) (event : EventGridEvent)
    (fields : list (string * json)) :
  data event = JObj fields ->
  ~ In "contentLength" (map fst fields) ->
  let record :=
    JObj [ ("id", JStr (event_id event));
           ("source", JStr "file");
           ("blob_name", JStr (last_segment (subject event)));
           ("blob_url", assoc_get "url" fields);
           ("blob_type", assoc_get "blobType" fields);
           ("content_type", assoc_get "contentType" fields);
           ("content_length", JNull);
           ("topic", JStr (topic event));
           ("subkect", JStr (subject event));
           ("event_type", JStr (event_type event)) ] in
  let entry := String dquote "content_length" ++ String dquote ": null" in
  (forall s,
      build_result event s
      = (Ok (mkParsed (last_segment (subject event)) (assoc_get "url" fields)
               (json_dumps record)), s))
  /\ py_get record "content_length" = Ok JNull
  /\ (exists before after, json_dumps record = before ++ entry ++ after)
  /\ decode_str (json_dumps (JStr (json_dumps record))) = Some (json_dumps record)
  /\ (lease_acquired (trace (snd (invoke w event))) ->
      emission_succeeds w ->
      messages (trace (snd (invoke w event)))
      = [json_dumps (JStr (json_dumps record))]).
Proof.
  intros Hd Habs. cbv zeta.
  assert (Hp : parsed_of event fields
               = mkParsed (last_segment (subject event)) (assoc_get "url" fields)
                   (json_dumps
                      (JObj [ ("id", JStr (event_id event));
                              ("source", JStr "file");
                              ("blob_name", JStr (last_segment (subject event)));
                              ("blob_url", assoc_get "url" fields);
                              ("blob_type", assoc_get "blobType" fields);
                              ("content_type", assoc_get "contentType" fields);
                              ("content_length", JNull);
                              ("topic", JStr (topic event));
                              ("subkect", JStr (subject event));
                              ("event_type", JStr (event_type event)) ]))).
  { unfold parsed_of, relay_record, payload_get.
    rewrite (assoc_get_absent "contentLength" fields Habs). reflexivity. }
  split; [|split; [|split; [|split]]].
  - intros s. rewrite <- Hp. apply build_result_object, Hd.
  - reflexivity.
  - apply (json_dumps_holds_entry
             [ ("id", JStr (event_id event));
               ("source", JStr "file");
               ("blob_name", JStr (last_segment (subject event)));
               ("blob_url", assoc_get "url" fields);
               ("blob_type", assoc_get "blobType" fields);
               ("content_type", assoc_get "contentType" fields) ]
             "content_length" JNull
             [ ("topic", JStr (topic event));
               ("subkect", JStr (subject event));
               ("event_type", JStr (event_type event)) ]).
  - apply decode_encode_str.
  - intros Hacq Hemit.
    rewrite (emitted_message w event fields Hd Hacq Hemit).
    unfold message_text. rewrite Hp. reflexivity.
Qed.

Lemma C6_witness :
  messages (trace (snd (invoke world_ok sample_event)))
  = [json_dumps (JStr (json_dumps
       (JObj [ ("id", JStr "evt-0001");
               ("source", JStr "file");
               ("blob_name", JStr "report-2024.csv");
               ("blob_url",
                 JStr "https://acct.blob.core.windows.net/uploads/report-2024.csv");
               ("blob_type", JStr "BlockBlob");
               ("content_type", JStr "text/csv");
               ("content_length", JNull);
               ("topic", JStr (topic sample_event));
               ("subkect", JStr (subject sample_event));
               ("event_type", JStr "Microsoft.Storage.BlobCreated") ])))].
Proof.
  apply (C6_missing_content_length world_ok sample_event sample_fields).
  - reflexivity.
  - simpl. intros [H|[H|[H|[]]]]; discriminate H.
  - exists "lease-1". vm_compute. left. reflexivity.
  - intros text. reflexivity.
Defined.

(** C7.  On a notification whose payload is an object, whichever keys it
    binds, lines 46 to 62 come back with a value and leave the state as
    they found it: no exception, no call, no assignment to [lease]. *)
Theorem C7_build_result_total (i sub t et : string) (fields : list (string * json))
    (s : state) :
  build_result (mkEvent i sub t et (JObj fields)) s
  = (Ok (parsed_of (mkEvent i sub t et (JObj fields)) fields), s).
Proof. apply build_result_object. reflexivity. Qed.

(** C8.  The text handed to the queue binding is a function of the
    notification: two invocations on the same notification, in whatever
    worlds, never emit different texts, and when both acquire the lease and
    the binding answers both times, each emits exactly one text, the same
    one. *)
Theorem C8_message_depends_on_notification_only (w1 w2 : world)
    (event : EventGridEvent) :
  let tr1 := trace (snd (invoke w1 event)) in
  let tr2 := trace (snd (invoke w2 event)) in
  (forall m1 m2, In m1 (messages tr1) -> In m2 (messages tr2) -> m1 = m2)
  /\ (lease_acquired tr1 -> lease_acquired tr2 ->
      emission_succeeds w1 -> emission_succeeds w2 ->
      exists m, messages tr1 = [m] /\ messages tr2 = [m]).
Proof.
  cbv zeta. split.
  - intros m1 m2 H1 H2.
    destruct (messages_inv w1 event m1 H1) as (f1 & Hd1 & -> & _).
    destruct (messages_inv w2 event m2 H2) as (f2 & Hd2 & -> & _).
    congruence.
  - intros [h1 Ha1] Ha2 He1 He2.
    destruct (acquired_inv w1 event h1 Ha1) as (fields & Hd & _).
    exists (message_text (parsed_of event fields)). split.
    + apply emitted_message; [exact Hd | exists h1; exact Ha1 | exact He1].
    + apply emitted_message; assumption.
Qed.

Lemma C8_witness :
  exists m,
    messages (trace (snd (invoke world_ok sample_event))) = [m]
    /\ messages (trace (snd (invoke world_ok' sample_event))) = [m].
Proof.
  apply (C8_message_depends_on_notification_only world_ok world_ok' sample_event).
  - exists "lease-1". vm_compute. left. reflexivity.
  - exists "lease-2". vm_compute. left. reflexivity.
  - intros text. reflexivity.
  - intros text. reflexivity.
Defined.

(** C9.  Splitting a subject on ["/"] never gives the empty list, so line
    47 always has a last segment to take.  For the empty subject and for a
    subject that ends in ["/"] that segment is the empty string; the
    handler then still builds its record, and with the lease acquired and
    the queue binding answering it emits its one text. *)
Theorem C9_blob_name_always_defined (sub : string) :
  split "/" sub <> []
  /\ index_last (split "/" sub) = Ok (last_segment sub)
  /\ (sub = "" \/ (exists prefix, sub = prefix ++ "/") ->
      last_segment sub = ""
      /\ forall (w : world) (event : EventGridEvent) (fields : list (string * json)),
           subject event = sub ->
           data event = JObj fields ->
           (forall s, build_result event s = (Ok (parsed_of event fields), s))
           /\ blob_name (parsed_of event fields) = ""
           /\ (lease_acquired (trace (snd (invoke w event))) ->
               emission_succeeds w ->
               messages (trace (snd (invoke w event)))
               = [message_text (parsed_of event fields)])).
Proof.
  split; [apply split_aux_nonempty|].
  split; [apply blob_name_defined|].
  intros Hsub.
  assert (Hlast : last_segment sub = "").
  { destruct Hsub as [->|[prefix ->]];
      [reflexivity | apply last_segment_trailing_slash]. }
  split; [exact Hlast|].
  intros w event fields Hs Hd. split; [|split].
  - intros s. apply build_result_object, Hd.
  - unfold parsed_of. simpl. rewrite Hs. exact Hlast.
  - intros Hacq Hemit. apply emitted_message; assumption.
Qed.

Lemma C9_witness :
  last_segment "/blobServices/default/containers/uploads/" = ""
  /\ messages (trace (snd (invoke world_ok
        (mkEvent "evt-0003" "/blobServices/default/containers/uploads/" "t" "et"
           (JObj sample_fields)))))
     = [message_text (parsed_of
        (mkEvent "evt-0003" "/blobServices/default/containers/uploads/" "t" "et"
           (JObj sample_fields)) sample_fields)].
Proof.
  destruct (C9_blob_name_always_defined "/blobServices/default/containers/uploads/")
    as (_ & _ & H).
  destruct H as [Hlast Hrun].
  - right. exists "/blobServices/default/containers/uploads". reflexivity.
  - split; [exact Hlast|].
    apply (Hrun world_ok
             (mkEvent "evt-0003" "/blobServices/default/containers/uploads/" "t" "et"
                (JObj sample_fields))
             sample_fields eq_refl eq_refl).
    + exists "lease-1". vm_compute. left. reflexivity.
    + intros text. reflexivity.
Defined.

(** C10, as amended.  When the [release()] call of the [finally] block
    raises, no clause catches the exception and it leaves the invocation.
    For a notification whose payload is a JSON object, and collaborators
    whose failures inside the [try] block derive from [Exception], it is
    the only way the handler ends with an exception. *)
Theorem C10_release_failure_propagates (w : world) (event : EventGridEvent) :
  (forall h e,
      acquired (trace (snd (invoke w event))) h ->
      release w h = Raise e ->
      fst (invoke w event) = Raise e)
  /\ (forall fields e,
      data event = JObj fields ->
      ordinary_failures w ->
      fst (invoke w event) = Raise e ->
      exists h, acquired (trace (snd (invoke w event))) h /\ release w h = Raise e).
Proof.
  split.
  - intros h e Hacq Hrel.
    destruct (invoke_acquired w event h Hacq) as (fields & _ & Hrun).
    cbv zeta in Hrun. rewrite Hrun. simpl. rewrite Hrel. reflexivity.
  - intros fields e Hd Hord Hraise.
    destruct (acquire_lease w) as [h|e'] eqn:Ha.
    + destruct (release w h) as [[]|e''] eqn:Hr.
      * rewrite (returns_normally w event fields Hd Hord) in Hraise;
          [discriminate|].
        intros h' Hh'. congruence.
      * revert Hraise. unfold acquired.
        rewrite (invoke_object w event fields Hd); cbv zeta.
        destruct (client_construction w (parsed_of event fields)) as [[]|e1] eqn:Hc.
        -- rewrite Ha. simpl. rewrite Hr. simpl. intros [= <-].
           exists h. split; [left; reflexivity | exact Hr].
        -- simpl. intros Hraise. exfalso.
           rewrite after_except_caught in Hraise; [discriminate|].
           apply (client_construction_ordinary w _ e1 Hord Hc).
    + rewrite (returns_normally w event fields Hd Hord) in Hraise;
        [discriminate|].
      intros h' Hh'. congruence.
Qed.

Lemma C10_witness :
  fst (invoke world_release_fails sample_event)
  = Raise (mkExn HttpResponseError "lease release failed").
Proof.
  apply (C10_release_failure_propagates world_release_fails sample_event)
    with (h := "lease-1").
  - vm_compute. left. reflexivity.
  - reflexivity.
Defined.

(** C10 as stated fails in its last clause: a failing [release()] is not
    the only way out with an exception.  On a payload that is [null] the
    handler raises [AttributeError] on line 48, and [release()] is never
    called. *)
Lemma C10_counterexample :
  fst (invoke world_ok (mkEvent "evt-0002" "/blobs/a.csv" "t" "et" JNull))
  = Raise (mkExn AttributeError "'NoneType' object has no attribute 'get'")
  /\ forall h,
      ~ release_called
          (trace (snd (invoke world_ok (mkEvent "evt-0002" "/blobs/a.csv" "t" "et" JNull))))
          h.
Proof.
  split; [vm_compute; reflexivity|].
  intros h [o H]. vm_compute in H. exact H.
Qed.

(** ** Further properties of the handler *)

(** *** The blob name *)

Lemma sep_free_rev_string (sep : ascii) (s acc : string) :
  sep_free sep (rev_string acc s) = sep_free sep acc && sep_free sep s.
Proof.
  revert acc; induction s as [|c r IH]; intros acc; simpl.
  - rewrite andb_true_r. reflexivity.
  - rewrite IH. simpl.
    destruct (Ascii.eqb c sep), (sep_free sep acc), (sep_free sep r); reflexivity.
Qed.

(** Every segment [split_aux] closes is free of the separator. *)
Lemma split_aux_segments_sep_free (sep : ascii) (s cur x : string) :
  sep_free sep cur = true ->
  In x (split_aux sep s cur) -> sep_free sep x = true.
Proof.
  revert cur; induction s as [|c r IH]; intros cur Hcur; simpl.
  - intros [<-|[]]. rewrite sep_free_rev_string. simpl. rewrite Hcur. reflexivity.
  - destruct (Ascii.eqb c sep) eqn:Hc.
    + intros [<-|Hin].
      * rewrite sep_free_rev_string. simpl. rewrite Hcur. reflexivity.
      * apply (IH ""); [reflexivity | exact Hin].
    + apply IH. simpl. rewrite Hc, Hcur. reflexivity.
Qed.

Lemma last_in {A} (xs : list A) (d : A) : xs <> [] -> In (last xs d) xs.
Proof.
  induction xs as [|x r IH]; [congruence|]; intros _.
  destruct r as [|y r']; [left; reflexivity|].
  right. apply IH. discriminate.
Qed.

Lemma last_cons {A} (x : A) (xs : list A) (d : A) :
  xs <> [] -> last (x :: xs) d = last xs d.
Proof. destruct xs; [congruence | reflexivity]. Qed.

(** A split text is either one segment, the text itself, or it ends with a
    separator followed by its last segment. *)
Lemma split_aux_last_decomposes (sep : ascii) (s cur : string) :
  (split_aux sep s cur = [rev_string "" cur ++ s] /\ sep_free sep s = true)
  \/ exists prefix,
       rev_string "" cur ++ s
       = prefix ++ String sep (last (split_aux sep s cur) "").
Proof.
  revert cur; induction s as [|c r IH]; intros cur; simpl.
  - left. rewrite string_app_nil_r. split; reflexivity.
  - destruct (Ascii.eqb_spec c sep) as [->|Hne].
    + right. rewrite last_cons by apply split_aux_nonempty.
      destruct (IH "") as [[E _]|[prefix E]].
      * exists (rev_string "" cur). rewrite E. reflexivity.
      * exists (rev_string "" cur ++ String sep prefix).
        simpl in E. rewrite string_app_assoc. simpl. rewrite <- E. reflexivity.
    + assert (Hstep : rev_string "" (String c cur) ++ r
                      = rev_string "" cur ++ String c r).
      { simpl. rewrite (rev_string_acc cur (String c "")), string_app_assoc.
        reflexivity. }
      destruct (IH (String c cur)) as [[E F]|[prefix E]].
      * left. rewrite E, Hstep. split; [reflexivity|].
        simpl. exact F.
      * right. exists prefix. rewrite <- Hstep. exact E.
Qed.

(** X1.  The blob name of line 47 never contains a ["/"], and the subject
    is either the blob name itself or some prefix, a ["/"], and the blob
    name. *)
Theorem blob_name_is_final_segment (sub : string) :
  index_last (split "/" sub) = Ok (last_segment sub)
  /\ sep_free "/" (last_segment sub) = true
  /\ (sub = last_segment sub
      \/ exists prefix, sub = prefix ++ "/" ++ last_segment sub).
Proof.
  split; [apply blob_name_defined|]. split.
  - apply (split_aux_segments_sep_free "/" sub "" (last_segment sub) eq_refl).
    apply last_in, split_aux_nonempty.
  - unfold last_segment, split.
    destruct (split_aux_last_decomposes "/" sub "") as [[E _]|[prefix E]].
    + left. rewrite E. reflexivity.
    + right. exists prefix. exact E.
Qed.

(** X2.  For a subject [prefix/name] whose [name] holds no ["/"], and an
    object payload, lines 46 to 62 set [blob_name] to [name], whatever the
    prefix. *)
Theorem blob_name_of_path (event : EventGridEvent) (fields : list (string * json))
    (prefix name : string) (s : state) :
  data event = JObj fields ->
  subject event = prefix ++ "/" ++ name ->
  sep_free "/" name = true ->
  exists p, build_result event s = (Ok p, s) /\ blob_name p = name.
Proof.
  intros Hd Hs Hname. exists (parsed_of event fields). split.
  - apply build_result_object, Hd.
  - unfold parsed_of. simpl.
    pose proof (blob_name_defined (subject event)) as H.
    rewrite Hs in H at 1.
    change (prefix ++ "/" ++ name) with (prefix ++ String "/" name) in H.
    rewrite (last_segment_spec "/" prefix name Hname) in H. congruence.
Qed.

Lemma blob_name_of_path_witness :
  exists p,
    build_result sample_event initial = (Ok p, initial)
    /\ blob_name p = "report-2024.csv".
Proof.
  apply (blob_name_of_path sample_event sample_fields
           "/blobServices/default/containers/uploads/blobs" "report-2024.csv").
  - reflexivity.
  - reflexivity.
  - reflexivity.
Defined.

(** *** The emitted text *)

Lemma all_chars_app (ok : ascii -> bool) (a b : string) :
  all_chars ok (a ++ b) = all_chars ok a && all_chars ok b.
Proof.
  induction a as [|c a IH]; simpl; [reflexivity|].
  rewrite IH, andb_assoc. reflexivity.
Qed.

Lemma escape_char_printable (c : ascii) : all_chars printable (escape_char c) = true.
Proof.
  destruct c as [[] [] [] [] [] [] [] []]; reflexivity.
Qed.

Lemma escape_chars_printable (s : string) :
  all_chars printable (escape_chars s) = true.
Proof.
  induction s as [|c r IH]; simpl; [reflexivity|].
  rewrite all_chars_app, escape_char_printable, IH. reflexivity.
Qed.

(** X3.  Two invocations that hand the same text to the queue binding have
    serialised the same record text on line 49: the second [json.dumps] of
    line 70 loses nothing. *)
Theorem message_text_injective (p1 p2 : parsed) :
  message_text p1 = message_text p2 -> result p1 = result p2.
Proof.
  unfold message_text. simpl. intros H.
  pose proof (decode_encode_str (result p1)) as H1.
  pose proof (decode_encode_str (result p2)) as H2.
  rewrite H in H1. congruence.
Qed.

Lemma message_text_injective_witness :
  result (parsed_of sample_event sample_fields)
  = result (parsed_of sample_event sample_fields).
Proof.
  apply (message_text_injective (parsed_of sample_event sample_fields)
           (parsed_of sample_event sample_fields)).
  reflexivity.
Defined.

(** X4.  Whatever the notification and the world, a text that reaches the
    queue binding is a JSON string literal: it opens and closes with a
    double quote, and every character of it is printable ASCII. *)
Theorem emitted_text_is_string_literal (w : world) (event : EventGridEvent)
    (m : string) :
  In m (messages (trace (snd (invoke w event)))) ->
  (exists body, m = String dquote (body ++ String dquote ""))
  /\ all_chars printable m = true.
Proof.
  intros H. destruct (messages_inv w event m H) as (fields & _ & -> & _).
  unfold message_text. simpl. unfold encode_str. split.
  - eexists. reflexivity.
  - simpl. rewrite all_chars_app, escape_chars_printable. reflexivity.
Qed.

Lemma emitted_text_is_string_literal_witness :
  (exists body,
      message_text (parsed_of sample_event sample_fields)
      = String dquote (body ++ String dquote ""))
  /\ all_chars printable (message_text (parsed_of sample_event sample_fields)) = true.
Proof.
  apply (emitted_text_is_string_literal world_ok sample_event).
  vm_compute. left. reflexivity.
Defined.

(** *** The paths of an invocation *)

Lemma invoke_path (w : world) (event : EventGridEvent) :
  path w event (invoke w event).
Proof.
  destruct (object_or_not (data event)) as [[fields Hd]|Hno].
  - rewrite (invoke_object w event fields Hd); cbv zeta.
    destruct (client_construction w (parsed_of event fields)) as [[]|e] eqn:Hc.
    + destruct (acquire_lease w) as [h|e] eqn:Ha.
      * destruct (msg_set w (message_text (parsed_of event fields)))
          as [[]|e] eqn:Hm; simpl.
        -- apply (path_emitted w event fields h); assumption.
        -- unfold after_except. destruct (is_Exception e) eqn:He; simpl.
           ++ apply (path_emit_caught w event fields h e); assumption.
           ++ apply (path_emit_uncaught w event fields h e); assumption.
      * unfold after_except. destruct (is_Exception e) eqn:He; simpl.
        -- apply (path_acquire_caught w event fields e); assumption.
        -- apply (path_acquire_uncaught w event fields e); assumption.
    + unfold after_except. destruct (is_Exception e) eqn:He; simpl.
      * apply (path_client_caught w event fields e); assumption.
      * apply (path_client_uncaught w event fields e); assumption.
  - rewrite (invoke_not_object w event Hno). apply path_payload. exact Hno.
Qed.

Lemma caught_log_is_log (p : parsed) (e : exn) :
  exists level fmt arg, caught_log p e = EvLog level fmt arg.
Proof.
  unfold caught_log.
  destruct (is_ResourceExistsError e); [|destruct (is_ResourceNotFoundError e)];
    eauto.
Qed.

(** Case analysis on the path of an invocation, with the log record of a
    caught exception made explicit. *)
Ltac on_paths w event :=
  let r := fresh "r" in
  let Hr := fresh "Hr" in
  pose proof (invoke_path w event) as Hr;
  remember (invoke w event) as r;
  destruct Hr;
  repeat match goal with
  | |- context [caught_log ?p ?e] =>
      let l := fresh "level" in
      let f := fresh "fmt" in
      let a := fresh "arg" in
      let E := fresh "Elog" in
      destruct (caught_log_is_log p e) as (l & f & a & E); rewrite E in *
  end.

Lemma not_found_is_not_conflict (e : exn) :
  is_ResourceNotFoundError e = true -> is_ResourceExistsError e = false.
Proof.
  destruct e as [c m]; destruct c; simpl; intros H;
    first [reflexivity | discriminate].
Qed.

Ltac paths w event :=
  let r := fresh "r" in
  let Hr := fresh "Hr" in
  let Heqr := fresh "Heqr" in
  pose proof (invoke_path w event) as Hr;
  remember (invoke w event) as r eqn:Heqr;
  destruct Hr.

(** X5.  In every world and on every notification, one invocation calls
    [acquire_lease()] at most once, [release()] at most once, writes at
    most one log record and leaves at most one text in the queue binding. *)
Theorem calls_at_most_once (w : world) (event : EventGridEvent) :
  (List.length (messages (trace (snd (invoke w event)))) <= 1)%nat
  /\ (count_events is_acquire_call (trace (snd (invoke w event))) <= 1)%nat
  /\ (count_events is_release_call (trace (snd (invoke w event))) <= 1)%nat
  /\ (count_events is_log_record (trace (snd (invoke w event))) <= 1)%nat.
Proof.
  on_paths w event; unfold count_events; simpl; repeat split; lia.
Qed.

(** X6.  An invocation that leaves a text in the queue binding did exactly
    three things, in this order: it acquired the lease, handed over the
    text, and called [release()] on that lease.  It wrote no log record. *)
Theorem emission_happens_under_the_lease (w : world) (event : EventGridEvent) :
  messages (trace (snd (invoke w event))) <> [] ->
  exists h fields,
    data event = JObj fields
    /\ trace (snd (invoke w event))
       = [EvAcquire (Ok h);
          EvMsgSet (message_text (parsed_of event fields)) (Ok tt);
          EvRelease h (release w h)].
Proof.
  on_paths w event; simpl; intros Hm; try congruence.
  exists h, fields. split; [assumption | reflexivity].
Qed.

Lemma emission_happens_under_the_lease_witness :
  exists h fields,
    data sample_event = JObj fields
    /\ trace (snd (invoke world_ok sample_event))
       = [EvAcquire (Ok h);
          EvMsgSet (message_text (parsed_of sample_event fields)) (Ok tt);
          EvRelease h (release world_ok h)].
Proof.
  apply (emission_happens_under_the_lease world_ok sample_event).
  vm_compute. discriminate.
Defined.

(** X7.  A normal return is never silent: either the queue binding holds
    one text and nothing was logged, or it holds none and exactly one log
    record was written. *)
Theorem normal_return_emits_or_logs (w : world) (event : EventGridEvent) :
  fst (invoke w event) = Ok tt ->
  (List.length (messages (trace (snd (invoke w event)))) = 1%nat
   /\ count_events is_log_record (trace (snd (invoke w event))) = 0%nat)
  \/ (messages (trace (snd (invoke w event))) = []
      /\ count_events is_log_record (trace (snd (invoke w event))) = 1%nat).
Proof.
  on_paths w event; unfold count_events; simpl; intros Hret;
    try discriminate; try (right; split; reflexivity).
  - left. split; reflexivity.
  - destruct (release w h); discriminate.
Qed.

Lemma normal_return_emits_or_logs_witness :
  (List.length (messages (trace (snd (invoke world_conflict sample_event)))) = 1%nat
   /\ count_events is_log_record (trace (snd (invoke world_conflict sample_event))) = 0%nat)
  \/ (messages (trace (snd (invoke world_conflict sample_event))) = []
      /\ count_events is_log_record (trace (snd (invoke world_conflict sample_event))) = 1%nat).
Proof.
  apply (normal_return_emits_or_logs world_conflict sample_event).
  reflexivity.
Defined.

(** X8.  When [acquire_lease()] raises an [Exception], the invocation makes
    that one call and writes one log record, chosen by the first [except]
    clause that accepts the exception: for a lease conflict an INFO record
    naming the blob; for a missing blob an ERROR record carrying the blob
    URL; for anything else an ERROR record carrying the exception's text. *)
Theorem acquisition_failure_log (w : world) (event : EventGridEvent) (e : exn) :
  acquisition_raised (trace (snd (invoke w event))) e ->
  exists fields,
    data event = JObj fields
    /\ (is_ResourceExistsError e = true ->
        trace (snd (invoke w event))
        = [EvAcquire (Raise e);
           EvLog INFO
             "Another process is currently leasing the blob %s. Exiting function....."
             (JStr (last_segment (subject event)))])
    /\ (is_ResourceNotFoundError e = true ->
        trace (snd (invoke w event))
        = [EvAcquire (Raise e);
           EvLog ERROR "Blob not found: %s. Processing halted"
             (payload_get fields "url")])
    /\ (is_ResourceExistsError e = false ->
        is_ResourceNotFoundError e = false ->
        is_Exception e = true ->
        trace (snd (invoke w event))
        = [EvAcquire (Raise e);
           EvLog ERROR "Unexpected error occurred: %s" (JStr (exn_msg e))]).
Proof.
  unfold acquisition_raised.
  paths w event; simpl; intros Hin;
    try (destruct (caught_log_is_log (parsed_of event fields) e0)
           as (l & f & a & El); rewrite El in Hin);
    try solve [not_in_trace Hin].
  - (* caught *)
    destruct Hin as [Hin|Hin]; [|not_in_trace Hin].
    injection Hin as ->. exists fields. split; [assumption|].
    unfold caught_log. split; [|split].
    + intros ->. reflexivity.
    + intros Hnf.
      rewrite (not_found_is_not_conflict e Hnf), Hnf. reflexivity.
    + intros -> -> _. reflexivity.
  - (* not caught *)
    destruct Hin as [Hin|[]]. injection Hin as ->.
    exists fields. split; [assumption|].
    split; [|split].
    + intros Hc. rewrite conflict_is_Exception in * by (left; exact Hc).
      discriminate.
    + intros Hc. rewrite conflict_is_Exception in * by (right; exact Hc).
      discriminate.
    + intros _ _ Hc. congruence.
Qed.

Lemma acquisition_failure_log_witness :
  exists fields,
    data sample_event = JObj fields
    /\ trace (snd (invoke world_conflict sample_event))
       = [EvAcquire (Raise (mkExn ResourceExistsError "There is already a lease present."));
          EvLog INFO
            "Another process is currently leasing the blob %s. Exiting function....."
            (JStr (last_segment (subject sample_event)))].
Proof.
  destruct (acquisition_failure_log world_conflict sample_event
              (mkExn ResourceExistsError "There is already a lease present."))
    as (fields & Hd & Hconflict & _).
  - vm_compute. left. reflexivity.
  - exists fields. split; [exact Hd|]. apply Hconflict. reflexivity.
Defined.

(** X9.  An exception that does not derive from [Exception] passes all
    three [except] clauses.  Raised by [acquire_lease()], it leaves the
    handler with nothing logged and nothing else called.  Raised by
    [msg.set], it leaves the handler after the [finally] block has given
    the lease back, with nothing logged and the queue binding empty. *)
Theorem non_Exception_is_not_caught (w : world) (event : EventGridEvent) (e : exn) :
  is_Exception e = false ->
  (acquisition_raised (trace (snd (invoke w event))) e ->
   invoke w event = (Raise e, mkState None [EvAcquire (Raise e)]))
  /\ (forall h text,
        In (EvMsgSet text (Raise e)) (trace (snd (invoke w event))) ->
        acquired (trace (snd (invoke w event))) h ->
        release w h = Ok tt ->
        invoke w event
        = (Raise e,
           mkState (Some h)
             [EvAcquire (Ok h); EvMsgSet text (Raise e); EvRelease h (Ok tt)])).
Proof.
  intros He. unfold acquisition_raised, acquired. split.
  - paths w event; simpl; intros Hin;
      try (destruct (caught_log_is_log (parsed_of event fields) e0)
             as (l & f & a & El); rewrite El in Hin);
      try solve [not_in_trace Hin].
    + destruct Hin as [Hin|Hin]; [|not_in_trace Hin].
      injection Hin as ->. congruence.
    + destruct Hin as [Hin|[]]. injection Hin as ->. reflexivity.
  - intros h' text.
    paths w event; simpl; intros Hin Hacq Hrel;
      try (destruct (caught_log_is_log (parsed_of event fields) e0)
             as (l & f & a & El); rewrite El in Hin, Hacq);
      try solve [not_in_trace Hin].
    + destruct Hin as [Hin|[Hin|Hin]]; [discriminate| |not_in_trace Hin].
      injection Hin as <- ->. congruence.
    + destruct Hin as [Hin|[Hin|Hin]]; [discriminate| |not_in_trace Hin].
      injection Hin as <- ->.
      destruct Hacq as [Hacq|Hacq]; [|not_in_trace Hacq].
      injection Hacq as ->. rewrite Hrel. reflexivity.
Qed.

Lemma non_Exception_is_not_caught_witness :
  invoke
    (mkWorld true (Ok tt) (fun _ => Ok tt)
       (Raise (mkExn NonException "KeyboardInterrupt"))
       (fun _ => Ok tt) (fun _ => Ok tt))
    sample_event
  = (Raise (mkExn NonException "KeyboardInterrupt"),
     mkState None [EvAcquire (Raise (mkExn NonException "KeyboardInterrupt"))]).
Proof.
  apply (non_Exception_is_not_caught
           (mkWorld true (Ok tt) (fun _ => Ok tt)
              (Raise (mkExn NonException "KeyboardInterrupt"))
              (fun _ => Ok tt) (fun _ => Ok tt))
           sample_event (mkExn NonException "KeyboardInterrupt")).
  - reflexivity.
  - vm_compute. left. reflexivity.
Defined.

(** X10.  On a payload that is not an object ([null], a list, a string, a
    number) line 48 raises [AttributeError] before the [try] is entered,
    with the text Python gives a failed attribute lookup, which names the
    payload's type: the exception reaches the caller, and no collaborator
    has been called, whatever the world. *)
Theorem non_object_payload_raises_before_any_call (w : world)
    (event : EventGridEvent) :
  (forall fields, data event <> JObj fields) ->
  fst (invoke w event)
  = Raise (mkExn AttributeError
             ("'" ++ type_name (data event) ++ "' object has no attribute 'get'"))
  /\ trace (snd (invoke w event)) = []
  /\ lease (snd (invoke w event)) = None.
Proof.
  intros Hno. rewrite (invoke_not_object w event Hno). repeat split.
Qed.

Lemma non_object_payload_raises_before_any_call_witness :
  fst (invoke world_ok (mkEvent "evt-0004" "/blobs/a.csv" "t" "et" (JArr [])))
  = Raise (mkExn AttributeError "'list' object has no attribute 'get'")
  /\ trace (snd (invoke world_ok (mkEvent "evt-0004" "/blobs/a.csv" "t" "et" (JArr []))))
     = []
  /\ lease (snd (invoke world_ok (mkEvent "evt-0004" "/blobs/a.csv" "t" "et" (JArr []))))
     = None.
Proof.
  apply (non_object_payload_raises_before_any_call world_ok
           (mkEvent "evt-0004" "/blobs/a.csv" "t" "et" (JArr []))).
  intros fields. simpl. discriminate.
Defined.

(** X11.  Where the name [_] of line 67 is unbound, as it is in the module
    on its own, every invocation on an object payload ends the same way:
    the [NameError] is caught by the last clause, one ERROR record is
    written, the handler returns normally, and neither [acquire_lease()]
    nor [msg.set] is ever called. *)
Theorem unbound_name_stops_every_invocation (w : world) (event : EventGridEvent)
    (fields : list (string * json)) :
  underscore_bound w = false ->
  data event = JObj fields ->
  invoke w event
  = (Ok tt,
     mkState None
       [EvLog ERROR "Unexpected error occurred: %s" (JStr "name '_' is not defined")]).
Proof.
  intros Hu Hd. rewrite (invoke_object w event fields Hd). cbv zeta.
  unfold client_construction. rewrite Hu. reflexivity.
Qed.

Lemma unbound_name_stops_every_invocation_witness :
  invoke world_unbound sample_event
  = (Ok tt,
     mkState None
       [EvLog ERROR "Unexpected error occurred: %s" (JStr "name '_' is not defined")]).
Proof.
  apply (unbound_name_stops_every_invocation world_unbound sample_event sample_fields).
  - reflexivity.
  - reflexivity.
Defined.

(** X12.  When the credential or the blob client cannot be built, the
    handler never calls [acquire_lease()]: it holds no lease, calls no
    [release()], and leaves the queue binding empty. *)
Theorem no_client_no_lease_call (w : world) (event : EventGridEvent)
    (fields : list (string * json)) :
  data event = JObj fields ->
  (exists e, DefaultAzureCredential w = Raise e)
  \/ (exists e, from_blob_url w (payload_get fields "url") = Raise e) ->
  count_events is_acquire_call (trace (snd (invoke w event))) = 0%nat
  /\ count_events is_release_call (trace (snd (invoke w event))) = 0%nat
  /\ messages (trace (snd (invoke w event))) = []
  /\ lease (snd (invoke w event)) = None.
Proof.
  intros Hd Hfail.
  assert (Hc : exists e, client_construction w (parsed_of event fields) = Raise e).
  { unfold client_construction. simpl.
    destruct (underscore_bound w); [|eauto].
    destruct Hfail as [[e He]|[e He]].
    - rewrite He. eauto.
    - destruct (DefaultAzureCredential w) as [[]|e']; eauto. }
  destruct Hc as [e Hc].
  rewrite (invoke_object w event fields Hd). cbv zeta. rewrite Hc.
  unfold count_events. simpl.
  destruct (after_except_trace (parsed_of event fields) e)
    as [E|(l & f & a & E)]; rewrite E; repeat split.
Qed.

Lemma no_client_no_lease_call_witness :
  count_events is_acquire_call
    (trace (snd (invoke
       (mkWorld true (Raise (mkExn OtherException "no credential")) (fun _ => Ok tt)
          (Ok "lease-1") (fun _ => Ok tt) (fun _ => Ok tt))
       sample_event))) = 0%nat.
Proof.
  apply (no_client_no_lease_call
           (mkWorld true (Raise (mkExn OtherException "no credential")) (fun _ => Ok tt)
              (Ok "lease-1") (fun _ => Ok tt) (fun _ => Ok tt))
           sample_event sample_fields).
  - reflexivity.
  - left. eexists. reflexivity.
Defined.

(** X13.  An exception that derives from [Exception] reaches the caller
    only from outside the [try] body: either the payload is not an object
    (line 48), or the lease was acquired and [release()] raised it in the
    [finally] block. *)
Theorem escaping_Exception_origin (w : world) (event : EventGridEvent) (e : exn) :
  fst (invoke w event) = Raise e ->
  is_Exception e = true ->
  (forall fields, data event <> JObj fields)
  \/ exists h, acquired (trace (snd (invoke w event))) h /\ release w h = Raise e.
Proof.
  unfold acquired.
  paths w event; simpl; intros Hraise He; try discriminate;
    try (injection Hraise as ->; congruence).
  - left. assumption.
  - right. exists h. split; [left; reflexivity|].
    destruct (release w h); simpl in Hraise; [discriminate | congruence].
  - right. exists h. split; [left; reflexivity|].
    destruct (release w h); simpl in Hraise; [discriminate | congruence].
  - destruct (release w h) as [[]|e'] eqn:Hr; simpl in Hraise.
    + injection Hraise as ->. congruence.
    + right. exists h. split; [left; reflexivity | congruence].
Qed.

Lemma escaping_Exception_origin_witness :
  (forall fields, data sample_event <> JObj fields)
  \/ exists h,
       acquired (trace (snd (invoke world_release_fails sample_event))) h
       /\ release world_release_fails h
          = Raise (mkExn HttpResponseError "lease release failed").
Proof.
  apply (escaping_Exception_origin world_release_fails sample_event).
  - reflexivity.
  - reflexivity.
Defined.
